(** * MedRAG: the browser API client and the diagnosis pipeline it talks to

    The first half embeds [frontend/lib/api-client.ts]: every method of
    [APIClient] becomes a program over two effects, [fetch] and
    [localStorage.removeItem], written in a small monad so that the Rocq
    text follows the TypeScript line by line.

    The second half (module [Backend]) models the diagnosis pipeline the
    client talks to.  Its code is not part of the sources at hand; each
    definition there says so and follows the wording of the design document.

    Strings are the UTF-8 bytes of the JavaScript string, so only well-formed
    Unicode strings are covered (a lone surrogate, on which
    [encodeURIComponent] raises [URIError], has no UTF-8 form).  Numbers are
    rationals; the client never computes with them. *)

From Stdlib Require Import ZArith QArith Qminmax Lia List Ascii String
  DecimalString Permutation Sorted.
From stdpp Require Import base option list strings gmap.

Close Scope Q_scope.
Local Open Scope string_scope.

(** ** JavaScript values that travel as JSON *)

#[warning="-register-all"] Inductive JSON : Type :=
| JNull
| JBool (b : bool)
| JNum (q : Q)
| JStr (s : string)
| JArr (items : list JSON)
| JObj (fields : list (string * JSON)).

(** Property read [v.k]; [None] stands for [undefined].  The keys of an
    object are taken to be distinct, as they are in a JavaScript object. *)
Fixpoint assoc (k : string) (fields : list (string * JSON)) : option JSON :=
  match fields with
  | [] => None
  | (k', v) :: rest => if String.eqb k k' then Some v else assoc k rest
  end.

Definition prop (k : string) (v : JSON) : option JSON :=
  match v with
  | JObj fields => assoc k fields
  | _ => None
  end.

(** An argument typed [any]: [undefined], or a value [JSON.stringify]
    writes out. *)
Inductive Any :=
| undefined
| value (v : JSON).

(** *** Characters *)

Definition code (c : ascii) : N := N_of_ascii c.

Definition between (lo hi : N) (n : N) : bool := (lo <=? n)%N && (n <=? hi)%N.

Definition hex_digit (upper : bool) (n : N) : ascii :=
  if (n <? 10)%N then ascii_of_N (48 + n)
  else ascii_of_N ((if upper then 55 else 87) + n).

Definition hex2 (upper : bool) (n : N) : string :=
  String (hex_digit upper (n / 16)) (String (hex_digit upper (n mod 16)) "").

Definition dquote : ascii := ascii_of_N 34.
Definition backslash : ascii := ascii_of_N 92.

(** *** [JSON.stringify] *)

Definition escape_char (c : ascii) : string :=
  let n := code c in
  if (n =? 34)%N then String backslash (String dquote "")
  else if (n =? 92)%N then String backslash (String backslash "")
  else if (n =? 8)%N then String backslash "b"
  else if (n =? 9)%N then String backslash "t"
  else if (n =? 10)%N then String backslash "n"
  else if (n =? 12)%N then String backslash "f"
  else if (n =? 13)%N then String backslash "r"
  else if (n <? 32)%N then String backslash ("u00" ++ hex2 false n)
  else String c "".

Fixpoint escape (s : string) : string :=
  match s with
  | EmptyString => ""
  | String c rest => escape_char c ++ escape rest
  end.

Definition quote (s : string) : string :=
  String dquote (escape s ++ String dquote "").

Section Stringify.
(** How a number prints (the ECMAScript [Number::toString]); the client
    only passes numbers through, so the printer stays a parameter. *)
Variable numberToString : Q -> string.

Fixpoint stringify (v : JSON) : string :=
  match v with
  | JNull => "null"
  | JBool true => "true"
  | JBool false => "false"
  | JNum q => numberToString q
  | JStr s => quote s
  | JArr items =>
      "[" ++
      (fix elems (l : list JSON) : string :=
         match l with
         | [] => ""
         | x :: rest =>
             stringify x ++
             match rest with [] => "" | _ => "," ++ elems rest end
         end) items ++ "]"
  | JObj fields =>
      "{" ++
      (fix members (l : list (string * JSON)) : string :=
         match l with
         | [] => ""
         | (k, x) :: rest =>
             quote k ++ ":" ++ stringify x ++
             match rest with [] => "" | _ => "," ++ members rest end
         end) fields ++ "}"
  end.

(** Template-literal conversion [`${v}`] of a value read from an [any]. *)
Fixpoint toString (v : JSON) : string :=
  match v with
  | JNull => "null"
  | JBool true => "true"
  | JBool false => "false"
  | JNum q => numberToString q
  | JStr s => s
  | JArr items =>
      (fix elems (l : list JSON) : string :=
         match l with
         | [] => ""
         | x :: rest =>
             match x with JNull => "" | _ => toString x end ++
             match rest with [] => "" | _ => "," ++ elems rest end
         end) items
  | JObj _ => "[object Object]"
  end.

Definition template (o : option JSON) : string :=
  match o with
  | None => "undefined"
  | Some v => toString v
  end.

(** [JSON.stringify(a)] for an [any]: [undefined] gives [undefined], no
    text. *)
Definition stringifyAny (a : Any) : option string :=
  match a with
  | undefined => None
  | value v => Some (stringify v)
  end.
End Stringify.

(** *** [encodeURIComponent] *)

(** The characters left as they are: letters, digits and [-_.!~*'()]. *)
Definition uri_unreserved (c : ascii) : bool :=
  let n := code c in
  between 65 90 n || between 97 122 n || between 48 57 n ||
  (n =? 45)%N || (n =? 95)%N || (n =? 46)%N || (n =? 33)%N ||
  (n =? 126)%N || (n =? 42)%N || (n =? 39)%N || (n =? 40)%N || (n =? 41)%N.

Definition encode_char (c : ascii) : string :=
  if uri_unreserved c then String c "" else "%" ++ hex2 true (code c).

Fixpoint encodeURIComponent (s : string) : string :=
  match s with
  | EmptyString => ""
  | String c rest => encode_char c ++ encodeURIComponent rest
  end.

(** ** HTTP as [fetch] sees it *)

Inductive Method := GET | POST | PUT | DELETE.

Record File := { file_name : string; file_content : string }.

Inductive Body :=
| TextBody (text : string)
| FormData (parts : list (string * File)).

(** The second argument of [fetch]; a field left out is [None]. *)
Record RequestInit := {
  method : option Method;
  headers : option (list (string * string));
  credentials : option string;
  body : option Body
}.

Definition no_init : RequestInit :=
  {| method := None; headers := None; credentials := None; body := None |}.

(** A call of [fetch]: [url] is the string passed as first argument, as the
    method wrote it and before [fetch] parses and resolves it. *)
Record Request := { url : string; init : RequestInit }.

(** The method a request goes out with: [GET] unless the init names one. *)
Definition http_method (rq : Request) : Method :=
  default GET (method (init rq)).

(** A response: status line and what [res.json()] makes of the body
    ([None] when the body is not JSON text). *)
Record Response := {
  status : N;
  statusText : string;
  parsed : option JSON
}.

Definition ok (res : Response) : bool := between 200 299 (status res).

Definition decimal (n : N) : string := NilZero.string_of_uint (N.to_uint n).

(** ** Programs: what an [async] method does *)

Inductive Exn :=
| Error (message : string)
| TypeError (message : string)
| SyntaxError (message : string).

Inductive Prog (A : Type) : Type :=
| Ret (a : A)
| Throw (e : Exn)
| Fetch (rq : Request) (k : Response -> Prog A)
| RemoveItem (key : string) (k : Prog A).

Arguments Ret {A} a.
Arguments Throw {A} e.
Arguments Fetch {A} rq k.
Arguments RemoveItem {A} key k.

Fixpoint bind {A B : Type} (p : Prog A) (f : A -> Prog B) : Prog B :=
  match p with
  | Ret a => f a
  | Throw e => Throw e
  | Fetch rq k => Fetch rq (fun res => bind (k res) f)
  | RemoveItem key k => RemoveItem key (bind k f)
  end.

Declare Scope prog_scope.
Delimit Scope prog_scope with prog.
Notation "'await' x <- p ; q" := (bind p (fun x => q))
  (at level 10, x name, p at level 100, q at level 200,
   format "'[v' 'await'  x  <-  p ; '/' q ']'") : prog_scope.
Local Open Scope prog_scope.

Definition fetch (u : string) (i : RequestInit) : Prog Response :=
  Fetch {| url := u; init := i |} Ret.

Definition removeItem (key : string) : Prog unit := RemoveItem key (Ret tt).

(** [res.json()] *)
Definition json (res : Response) : Prog JSON :=
  match parsed res with
  | Some v => Ret v
  | None => Throw (SyntaxError "Unexpected token")
  end.

(** *** Running a program against a network and a [localStorage] *)

Record World := {
  localStorage : gmap string string;
  sent : list Request
}.

Inductive Outcome (A : Type) :=
| Resolved (a : A)
| Rejected (e : Exn).

Arguments Resolved {A} a.
Arguments Rejected {A} e.

(** [net rq = None]: the request never got an answer and [fetch] rejects. *)
Fixpoint run {A : Type} (net : Request -> option Response) (p : Prog A)
    (w : World) : Outcome A * World :=
  match p with
  | Ret a => (Resolved a, w)
  | Throw e => (Rejected e, w)
  | Fetch rq k =>
      let w' := {| localStorage := localStorage w; sent := sent w ++ [rq] |} in
      match net rq with
      | Some res => run net (k res) w'
      | None => (Rejected (TypeError "Failed to fetch"), w')
      end
  | RemoveItem key k =>
      run net k
        {| localStorage := delete key (localStorage w); sent := sent w |}
  end.

(** ** The client: [class APIClient] *)

Module SignupData.
Record t := { email : string; password : string; full_name : option string }.
End SignupData.

Module LoginData.
Record t := { email : string; password : string }.
End LoginData.

Module DiagnosisRequest.
Record t := {
  patient_name : string;
  patient_email : string;
  age : Q;
  gender : string;
  symptoms : string;
  medical_history : option string
}.

(** The object as [JSON.stringify] walks it: the declared fields in their
    declared order, an absent optional field left out. *)
Definition toJSON (d : t) : JSON :=
  JObj ([("patient_name", JStr (patient_name d));
         ("patient_email", JStr (patient_email d));
         ("age", JNum (age d));
         ("gender", JStr (gender d));
         ("symptoms", JStr (symptoms d))] ++
        match medical_history d with
        | Some h => [("medical_history", JStr h)]
        | None => []
        end).
End DiagnosisRequest.

Module ChatRequest.
Record t := { message : string; context : option string }.
End ChatRequest.

(** [{ success: true }] *)
Definition success : JSON := JObj [("success", JBool true)].

(** [data.id] on a value typed [any]: reading a property of [undefined] or
    of [null] throws. *)
Definition read (k : string) (a : Any) : Prog (option JSON) :=
  match a with
  | undefined =>
      Throw (TypeError
        ("Cannot read properties of undefined (reading '" ++ k ++ "')"))
  | value JNull =>
      Throw (TypeError
        ("Cannot read properties of null (reading '" ++ k ++ "')"))
  | value v => Ret (prop k v)
  end.

Section APIClient.
(** [API_CONFIG.BASE_URL] of [./config]. *)
Variable API_URL : string.
Variable numberToString : Q -> string.

Local Abbreviation stringify := (stringify numberToString).
Local Abbreviation template := (template numberToString).
Local Abbreviation stringifyAny := (stringifyAny numberToString).

Definition getHeaders : list (string * string) :=
  [("Content-Type", "application/json")].

Definition getOptions (includeCredentials : bool) : RequestInit :=
  if includeCredentials
  then {| method := None; headers := None; credentials := Some "include";
          body := None |}
  else no_init.

Definition http_error (res : Response) : Exn :=
  Error ("HTTP " ++ decimal (status res) ++ ": " ++ statusText res).

(** *** Auth endpoints *)

Definition signup (data : SignupData.t) : Prog JSON :=
  await res <- fetch (API_URL ++ "/auth/login")
    {| method := Some POST;
       headers := Some getHeaders;
       credentials := None;
       body := Some (TextBody (stringify
         (JObj [("username", JStr (SignupData.email data));
                ("password", JStr (SignupData.password data))]))) |};
  json res.

Definition login (data : LoginData.t) : Prog JSON :=
  await res <- fetch (API_URL ++ "/auth/login")
    {| method := Some POST;
       headers := Some getHeaders;
       credentials := Some "include";
       body := Some (TextBody (stringify
         (JObj [("username", JStr (LoginData.email data));
                ("password", JStr (LoginData.password data))]))) |};
  json res.

Definition logout : Prog JSON :=
  await _ <- removeItem "token";
  Ret success.

Definition verifyEmail (token : string) : Prog JSON :=
  Ret success.

(** *** User endpoints *)

Definition getCurrentUser : Prog JSON :=
  await res <- fetch (API_URL ++ "/auth/me")
    {| method := None; headers := Some getHeaders;
       credentials := Some "include"; body := None |};
  json res.

Definition updateUser (data : Any) : Prog JSON :=
  await id <- read "id" data;
  await res <- fetch (API_URL ++ "/api/v1/patients/" ++ template id)
    {| method := Some PUT; headers := Some getHeaders;
       credentials := Some "include";
       body := TextBody <$> stringifyAny data |};
  json res.

(** *** Diagnosis endpoints *)

Definition createDiagnosis (data : DiagnosisRequest.t) : Prog JSON :=
  await res <- fetch (API_URL ++ "/api/v1/diagnosis/start")
    {| method := Some POST; headers := Some getHeaders;
       credentials := Some "include";
       body := Some (TextBody (stringify (DiagnosisRequest.toJSON data))) |};
  if negb (ok res) then Throw (http_error res) else json res.

Definition getUserDiagnoses : Prog JSON :=
  await res <- fetch (API_URL ++ "/api/v1/patients")
    {| method := None; headers := Some getHeaders;
       credentials := Some "include"; body := None |};
  if (status res =? 403)%N then Throw (Error "Not authenticated")
  else if negb (ok res) then Throw (http_error res)
  else json res.

Definition getDiagnosis (id : string) : Prog JSON :=
  await res <- fetch (API_URL ++ "/api/v1/diagnosis/" ++ id)
    {| method := None; headers := Some getHeaders;
       credentials := Some "include"; body := None |};
  if negb (ok res) then Throw (http_error res) else json res.

(** *** File upload endpoints *)

Definition uploadFile (file : File) : Prog JSON :=
  let formData := [("files", file)] in
  await res <- fetch (API_URL ++ "/api/v1/upload")
    {| method := Some POST; headers := None;
       credentials := Some "include"; body := Some (FormData formData) |};
  json res.

Definition getUploadProgress (fileId : string) : Prog JSON :=
  await res <- fetch (API_URL ++ "/api/v1/upload/" ++ fileId ++ "/progress")
    {| method := None; headers := Some getHeaders;
       credentials := Some "include"; body := None |};
  json res.

Definition healthCheck : Prog JSON :=
  await res <- fetch (API_URL ++ "/api/v1/health") no_init;
  json res.

(** *** Diagnosis management endpoints *)

Definition deleteDiagnosis (sessionId : string) : Prog JSON :=
  await res <- fetch (API_URL ++ "/api/v1/diagnosis/" ++ sessionId)
    {| method := Some DELETE; headers := Some getHeaders;
       credentials := Some "include"; body := None |};
  json res.

(** [format] defaults to ['json'] when the caller leaves it out. *)
Definition exportDiagnosis (sessionId : string) (format : option string)
  : Prog JSON :=
  let format := default "json" format in
  await res <- fetch (API_URL ++ "/api/v1/diagnosis/" ++ sessionId ++ "/export")
    {| method := Some POST; headers := Some getHeaders;
       credentials := Some "include";
       body := Some (TextBody (stringify (JObj [("format", JStr format)]))) |};
  json res.

Definition submitFeedback (sessionId : string) (feedback : Any) : Prog JSON :=
  await res <- fetch
    (API_URL ++ "/api/v1/diagnosis/" ++ sessionId ++ "/feedback")
    {| method := Some POST; headers := Some getHeaders;
       credentials := Some "include";
       body := TextBody <$> stringifyAny feedback |};
  json res.

Definition getDiagnosisSummary (sessionId : string) : Prog JSON :=
  await res <- fetch
    (API_URL ++ "/api/v1/diagnosis/" ++ sessionId ++ "/summary")
    {| method := None; headers := Some getHeaders;
       credentials := Some "include"; body := None |};
  json res.

(** *** Knowledge Graph endpoints *)

Definition getSessionKG (sessionId : string) : Prog JSON :=
  await res <- fetch (API_URL ++ "/api/v1/kg/" ++ sessionId)
    {| method := None; headers := Some getHeaders;
       credentials := Some "include"; body := None |};
  json res.

Definition exploreNode (nodeId : string) : Prog JSON :=
  await res <- fetch
    (API_URL ++ "/api/v1/kg/explore/" ++ encodeURIComponent nodeId) no_init;
  json res.

Definition findPath (sourceNode targetNode : string) : Prog JSON :=
  await res <- fetch
    (API_URL ++ "/api/v1/kg/path/" ++ encodeURIComponent sourceNode ++ "/" ++
     encodeURIComponent targetNode) no_init;
  json res.

Definition getDiseaseInfo (diseaseName : string) : Prog JSON :=
  await res <- fetch
    (API_URL ++ "/api/v1/kg/disease/" ++ encodeURIComponent diseaseName)
    no_init;
  json res.

Definition getSymptomRelations (symptom : string) : Prog JSON :=
  await res <- fetch
    (API_URL ++ "/api/v1/kg/symptoms/" ++ encodeURIComponent symptom) no_init;
  json res.

Definition getKGStats : Prog JSON :=
  await res <- fetch (API_URL ++ "/api/v1/kg/stats") no_init;
  json res.

Definition analyzeSymptoms (symptoms : list string) : Prog JSON :=
  await res <- fetch (API_URL ++ "/api/v1/kg/analyze")
    {| method := Some POST; headers := Some getHeaders;
       credentials := None;
       body := Some (TextBody (stringify
         (JObj [("symptoms", JArr (map JStr symptoms))]))) |};
  json res.

(** *** Patient endpoints *)

Definition createPatient (data : Any) : Prog JSON :=
  await res <- fetch (API_URL ++ "/api/v1/patients")
    {| method := Some POST; headers := Some getHeaders;
       credentials := Some "include";
       body := TextBody <$> stringifyAny data |};
  json res.

Definition getPatient (patientId : string) : Prog JSON :=
  await res <- fetch (API_URL ++ "/api/v1/patients/" ++ patientId)
    {| method := None; headers := Some getHeaders;
       credentials := Some "include"; body := None |};
  json res.

Definition deletePatient (patientId : string) : Prog JSON :=
  await res <- fetch (API_URL ++ "/api/v1/patients/" ++ patientId)
    {| method := Some DELETE; headers := Some getHeaders;
       credentials := Some "include"; body := None |};
  json res.

(** *** Every call the exported [api] object accepts *)

Inductive Call :=
| call_signup (data : SignupData.t)
| call_login (data : LoginData.t)
| call_logout
| call_verifyEmail (token : string)
| call_getCurrentUser
| call_updateUser (data : Any)
| call_createDiagnosis (data : DiagnosisRequest.t)
| call_getUserDiagnoses
| call_getDiagnosis (id : string)
| call_uploadFile (file : File)
| call_getUploadProgress (fileId : string)
| call_healthCheck
| call_deleteDiagnosis (sessionId : string)
| call_exportDiagnosis (sessionId : string) (format : option string)
| call_submitFeedback (sessionId : string) (feedback : Any)
| call_getDiagnosisSummary (sessionId : string)
| call_getSessionKG (sessionId : string)
| call_exploreNode (nodeId : string)
| call_findPath (sourceNode targetNode : string)
| call_getDiseaseInfo (diseaseName : string)
| call_getSymptomRelations (symptom : string)
| call_getKGStats
| call_analyzeSymptoms (symptoms : list string)
| call_createPatient (data : Any)
| call_getPatient (patientId : string)
| call_deletePatient (patientId : string).

Definition api (c : Call) : Prog JSON :=
  match c with
  | call_signup data => signup data
  | call_login data => login data
  | call_logout => logout
  | call_verifyEmail token => verifyEmail token
  | call_getCurrentUser => getCurrentUser
  | call_updateUser data => updateUser data
  | call_createDiagnosis data => createDiagnosis data
  | call_getUserDiagnoses => getUserDiagnoses
  | call_getDiagnosis id => getDiagnosis id
  | call_uploadFile file => uploadFile file
  | call_getUploadProgress fileId => getUploadProgress fileId
  | call_healthCheck => healthCheck
  | call_deleteDiagnosis sessionId => deleteDiagnosis sessionId
  | call_exportDiagnosis sessionId format => exportDiagnosis sessionId format
  | call_submitFeedback sessionId feedback => submitFeedback sessionId feedback
  | call_getDiagnosisSummary sessionId => getDiagnosisSummary sessionId
  | call_getSessionKG sessionId => getSessionKG sessionId
  | call_exploreNode nodeId => exploreNode nodeId
  | call_findPath a b => findPath a b
  | call_getDiseaseInfo diseaseName => getDiseaseInfo diseaseName
  | call_getSymptomRelations symptom => getSymptomRelations symptom
  | call_getKGStats => getKGStats
  | call_analyzeSymptoms symptoms => analyzeSymptoms symptoms
  | call_createPatient data => createPatient data
  | call_getPatient patientId => getPatient patientId
  | call_deletePatient patientId => deletePatient patientId
  end.

End APIClient.

(** A printer for whole numbers, enough to run the client on examples. *)
Definition integerToString (q : Q) : string :=
  let z := (Qnum q / Zpos (Qden q))%Z in
  (if (z <? 0)%Z then "-" else "") ++ decimal (Z.abs_N z).

(** ** The diagnosis pipeline behind the client *)

Module Backend.

(** Modelled from the spec: the error taxonomy of section 7; the pipeline's
    code is not among the sources. *)
Inductive PipelineError :=
| ValidationError
| SessionNotFound
| SessionNotReady
| InvalidStateTransition
| IndexUnavailable
| GraphUnavailable
| ProviderTimeout
| ProviderRateLimited
| ProviderError
| MalformedPayload.

Inductive Result (A : Type) :=
| Ok (a : A)
| Fail (e : PipelineError).

Arguments Ok {A} a.
Arguments Fail {A} e.

(** *** Data model (section 3) *)

(** Modelled from the spec: PatientInput. *)
Record PatientInput := {
  complaints : list string;
  symptoms : list string;
  vitals : gmap string JSON;
  history : option string;
  top_k : positive
}.

(** Modelled from the spec: CaseRecord. *)
Record CaseRecord := {
  case_id : string;
  score : Q;
  prior_diagnosis : string;
  case_outcome : string
}.

(** Modelled from the spec: the entries of a DiagnosisResult. *)
Record Diagnosis := {
  condition : string;
  confidence : Q;
  description : string;
  icd10 : string
}.

Record Action := {
  action_id : string;
  action_text : string;
  priority : string;
  category : string
}.

Record Question := { question_id : string; question_text : string }.

Record SimilarCase := {
  caseId : string;
  similarity : Q;
  diagnosis : string;
  outcome : string
}.

(** Modelled from the spec: DiagnosisResult. *)
Record DiagnosisResult := {
  differentialDiagnosis : list Diagnosis;
  recommendedActions : list Action;
  followUpQuestions : list Question;
  similarCases : list SimilarCase
}.

(** *** Session Manager (section 4.1) *)

Inductive State := pending | processing | completed | failed.

#[global] Instance State_eq_dec : EqDecision State.
Proof. solve_decision. Defined.

(** Modelled from the spec: DiagnosisSession, without its timestamps. *)
Record DiagnosisSession := {
  state : State;
  owner : string;
  input : PatientInput;
  error_detail : option string;
  result : option DiagnosisResult;
  degraded : bool
}.

(** Modelled from the spec: the explicit store handle of section 9. *)
Record Store := {
  sessions : gmap string DiagnosisSession;
  next_id : N
}.

(** What a transition commits along with the new state. *)
Inductive Commit :=
| Nothing
| WithResult (r : DiagnosisResult) (is_degraded : bool)
| WithError (detail : string).

(** Modelled from the spec: [create(patientInput) -> sessionId]; the
    session starts out [pending]. *)
Definition create (st : Store) (who : string) (inp : PatientInput)
  : Store * string :=
  let id := "s" ++ decimal (next_id st) in
  ({| sessions :=
        <[id := {| state := pending; owner := who; input := inp;
                   error_detail := None; result := None;
                   degraded := false |}]> (sessions st);
      next_id := N.succ (next_id st) |}, id).

(** Modelled from the spec: [get(sessionId)]. *)
Definition get (st : Store) (id : string) : Result DiagnosisSession :=
  match sessions st !! id with
  | Some s => Ok s
  | None => Fail SessionNotFound
  end.

Definition delete (st : Store) (id : string) : Store :=
  {| sessions := base.delete id (sessions st); next_id := next_id st |}.

(** Modelled from the spec: the state machine
    [pending -> processing -> {completed, failed}]. *)
Definition allowed (from to : State) : bool :=
  match from, to with
  | pending, processing => true
  | processing, completed => true
  | processing, failed => true
  | _, _ => false
  end.

Definition commit (s : DiagnosisSession) (to : State) (c : Commit)
  : DiagnosisSession :=
  {| state := to;
     owner := owner s;
     input := input s;
     error_detail :=
       match c with WithError d => Some d | _ => error_detail s end;
     result :=
       match c with WithResult r _ => Some r | _ => result s end;
     degraded :=
       match c with WithResult _ d => d | _ => degraded s end |}.

(** Modelled from the spec: [transition(sessionId, newState, result|error)];
    a transition outside the state machine is rejected and the store is
    handed back as it was. *)
Definition transition (st : Store) (id : string) (to : State) (c : Commit)
  : Store * Result unit :=
  match sessions st !! id with
  | None => (st, Fail SessionNotFound)
  | Some s =>
      if allowed (state s) to
      then ({| sessions := <[id := commit s to c]> (sessions st);
               next_id := next_id st |}, Ok tt)
      else (st, Fail InvalidStateTransition)
  end.

(** The state of a session as a reader sees it. *)
Definition state_of (st : Store) (id : string) : option State :=
  state <$> sessions st !! id.

(** The states session [id] is seen to enter while the requests [reqs]
    (session id, requested state, payload) are served in order. *)
Fixpoint entered (st : Store) (id : string)
    (reqs : list (string * State * Commit)) : list State :=
  match reqs with
  | [] => []
  | (i, to, c) :: rest =>
      match transition st i to c with
      | (st', Ok _) =>
          (if decide (i = id) then [to] else []) ++ entered st' id rest
      | (st', Fail _) => entered st' id rest
      end
  end.

(** The observed state sequence of a session: where it stands, then every
    state it enters. *)
Definition observed (st : Store) (id : string)
    (reqs : list (string * State * Commit)) : list State :=
  match state_of st id with
  | Some s => s :: entered st id reqs
  | None => []
  end.

(** The store after the requests were served. *)
Fixpoint serve (st : Store) (reqs : list (string * State * Commit)) : Store :=
  match reqs with
  | [] => st
  | (i, to, c) :: rest => serve (fst (transition st i to c)) rest
  end.

(** *** Knowledge Graph Engine (section 4.3) *)

Inductive NodeType := symptom_node | condition_node | action_node.

Record Triplet := { source : string; relation : string; target : string }.

#[global] Instance Triplet_eq_dec : EqDecision Triplet.
Proof. solve_decision. Defined.

(** Modelled from the spec: the graph, its nodes typed and its edges
    (node, relation, node) triplets. *)
Record Graph := {
  node_type : gmap string NodeType;
  triplets : list Triplet
}.

Definition GraphExpansion := list Triplet.

(** A term resolves when the graph has a node of that name. *)
Definition resolve (g : Graph) (term : string) : option string :=
  match node_type g !! term with
  | Some _ => Some term
  | None => None
  end.

(** One breadth-first level per unit of depth: the triplets leaving the
    frontier are collected, and the nodes they reach that were not visited
    before form the next frontier. *)
Fixpoint traverse (g : Graph) (depth : nat) (frontier visited : list string)
    (acc : list Triplet) : list Triplet :=
  match depth with
  | O => acc
  | S d =>
      let out := filter (fun t => source t ∈ frontier) (triplets g) in
      let next :=
        remove_dups (filter (fun n => n ∉ visited) (target <$> out)) in
      traverse g d next (visited ++ next) (acc ++ list_difference out acc)
  end.

(** Modelled from the spec: [expand(terms, maxDepth) -> GraphExpansion].
    Unknown terms are skipped; without a graph the expansion is empty. *)
Definition expand (kg : option Graph) (terms : list string) (maxDepth : nat)
  : Result GraphExpansion :=
  match kg with
  | None => Ok []
  | Some g =>
      let seeds := remove_dups (omap (resolve g) terms) in
      Ok (traverse g maxDepth seeds seeds [])
  end.

(** *** Result Aggregator (section 4.6) *)

Definition as_string (o : option JSON) : option string :=
  match o with Some (JStr s) => Some s | _ => None end.

Definition as_number (o : option JSON) : option Q :=
  match o with Some (JNum q) => Some q | _ => None end.

Definition as_list (o : option JSON) : list JSON :=
  match o with Some (JArr l) => l | _ => [] end.

(** Clamping to [0,100]. *)
Definition clamp (q : Q) : Q :=
  if Qle_bool q 0 then 0%Q
  else if Qle_bool 100 q then 100%Q
  else q.

(** An entry is usable when every field is there with its type. *)
Definition parse_diagnosis (v : JSON) : option Diagnosis :=
  c ← as_string (prop "condition" v);
  q ← as_number (prop "confidence" v);
  d ← as_string (prop "description" v);
  i ← as_string (prop "icd10" v);
  Some {| condition := c; confidence := clamp q; description := d;
          icd10 := i |}.

Definition parse_case (v : JSON) : option SimilarCase :=
  c ← as_string (prop "caseId" v);
  q ← as_number (prop "similarity" v);
  d ← as_string (prop "diagnosis" v);
  o ← as_string (prop "outcome" v);
  Some {| caseId := c; similarity := clamp q; diagnosis := d; outcome := o |}.

(** An action before its id is settled: the id it came with, if any. *)
Record RawAction := {
  given_action_id : option string;
  raw_text : string;
  raw_priority : string;
  raw_category : string
}.

Definition parse_action (v : JSON) : option RawAction :=
  t ← as_string (prop "text" v);
  p ← as_string (prop "priority" v);
  c ← as_string (prop "category" v);
  Some {| given_action_id := as_string (prop "id" v); raw_text := t;
          raw_priority := p; raw_category := c |}.

Record RawQuestion := {
  given_question_id : option string;
  raw_question : string
}.

Definition parse_question (v : JSON) : option RawQuestion :=
  t ← as_string (prop "text" v);
  Some {| given_question_id := as_string (prop "id" v); raw_question := t |}.

(** The synthetic id of the entry at position [i] (counted from 1). *)
Definition synthetic_id (prefix : string) (i : nat) : string :=
  prefix ++ decimal (N.of_nat (S i)).

Definition settle_action (i : nat) (a : RawAction) : Action :=
  {| action_id := default (synthetic_id "a" i) (given_action_id a);
     action_text := raw_text a;
     priority := raw_priority a;
     category := raw_category a |}.

Definition settle_question (i : nat) (q : RawQuestion) : Question :=
  {| question_id := default (synthetic_id "q" i) (given_question_id q);
     question_text := raw_question q |}.

(** Descending order of confidence. *)
Definition above (a b : Diagnosis) : Prop :=
  (confidence b <= confidence a)%Q.

Fixpoint insert_desc (d : Diagnosis) (l : list Diagnosis) : list Diagnosis :=
  match l with
  | [] => [d]
  | x :: rest =>
      if Qle_bool (confidence x) (confidence d)
      then d :: x :: rest
      else x :: insert_desc d rest
  end.

Fixpoint sort_desc (l : list Diagnosis) : list Diagnosis :=
  match l with
  | [] => []
  | d :: rest => insert_desc d (sort_desc rest)
  end.

(** The usable diagnosis entries of a payload, malformed ones dropped. *)
Definition usable_diagnoses (raw : JSON) : list Diagnosis :=
  omap parse_diagnosis (as_list (prop "differentialDiagnosis" raw)).

Definition usable_actions (raw : JSON) : list RawAction :=
  omap parse_action (as_list (prop "recommendedActions" raw)).

Definition usable_questions (raw : JSON) : list RawQuestion :=
  omap parse_question (as_list (prop "followUpQuestions" raw)).

Definition usable_cases (raw : JSON) : list SimilarCase :=
  omap parse_case (as_list (prop "similarCases" raw)).

(** Modelled from the spec: [normalize(rawPayload) -> DiagnosisResult]. *)
Definition normalize (raw : JSON) : Result DiagnosisResult :=
  match usable_diagnoses raw with
  | [] => Fail MalformedPayload
  | ds =>
      Ok {| differentialDiagnosis := sort_desc ds;
            recommendedActions := imap settle_action (usable_actions raw);
            followUpQuestions := imap settle_question (usable_questions raw);
            similarCases := usable_cases raw |}
  end.

Definition in_range (q : Q) : Prop := (0 <= q)%Q /\ (q <= 100)%Q.

(** *** Prompt Composer (section 4.4) *)

Record PromptContext := {
  ctx_complaints : list string;
  ctx_symptoms : list string;
  ctx_vitals : gmap string JSON;
  ctx_cases : list CaseRecord;
  ctx_facts : list Triplet
}.

Record Config := {
  max_depth : nat;
  retry_budget : nat;
  max_cases : nat;
  max_facts : nat
}.

(** Modelled from the spec: [compose(patientInput, cases, expansion)], each
    part cut to its configured maximum. *)
Definition compose (cfg : Config) (inp : PatientInput)
    (cases : list CaseRecord) (expansion : GraphExpansion) : PromptContext :=
  {| ctx_complaints := complaints inp;
     ctx_symptoms := symptoms inp;
     ctx_vitals := vitals inp;
     ctx_cases := take (max_cases cfg) cases;
     ctx_facts := take (max_facts cfg) expansion |}.

(** *** Generation Client (section 4.5) *)

(** Modelled from the spec: the two provider variants.  What the external
    service answers may differ from one call to the next, so the networked
    variant is given by its answer to the n-th call; the offline variant is
    a function of the context alone. *)
Inductive Provider :=
| Networked (answer : nat -> PromptContext -> Result JSON)
| Offline (synthesize : PromptContext -> JSON).

Definition generate (p : Provider) (call : nat) (ctx : PromptContext)
  : Result JSON :=
  match p with
  | Networked answer => answer call ctx
  | Offline synthesize => Ok (synthesize ctx)
  end.

(** *** Task Executor (section 4.7) *)

Record Job := {
  job_session : string;
  job_input : PatientInput;
  attempts : nat
}.

Inductive JobState := queued | running | success | retrying | job_failed.

(** Retries apply only to transient failures. *)
Definition retryable (e : PipelineError) : bool :=
  match e with
  | IndexUnavailable | ProviderTimeout | ProviderRateLimited => true
  | _ => false
  end.

Definition describe (e : PipelineError) : string :=
  match e with
  | ValidationError => "ValidationError"
  | SessionNotFound => "SessionNotFound"
  | SessionNotReady => "SessionNotReady"
  | InvalidStateTransition => "InvalidStateTransition"
  | IndexUnavailable => "IndexUnavailable"
  | GraphUnavailable => "GraphUnavailable"
  | ProviderTimeout => "ProviderTimeout"
  | ProviderRateLimited => "ProviderRateLimited"
  | ProviderError => "ProviderError"
  | MalformedPayload => "MalformedPayload"
  end.

Section Executor.
Variable cfg : Config.
(** The Case Retrieval Engine's [search(queryRepresentation, k)]. *)
Variable search : PatientInput -> nat -> Result (list CaseRecord).
Variable kg : option Graph.
(** The provider the deployment selected, and the offline one. *)
Variable primary : Provider.
Variable synthesize : PromptContext -> JSON.

(** The selected provider with its retries: the call numbered [call], and
    [budget] more after a transient failure. *)
Fixpoint attempt (ctx : PromptContext) (call budget : nat) : Result JSON :=
  match generate primary call ctx with
  | Ok raw => Ok raw
  | Fail e =>
      if retryable e
      then match budget with
           | O => Fail e
           | S b => attempt ctx (S call) b
           end
      else Fail e
  end.

(** Retrieval is not fatal: without the index the case list is empty and
    the result degraded. *)
Definition retrieval_stage (inp : PatientInput) : list CaseRecord * bool :=
  let k := Pos.to_nat (top_k inp) in
  match search inp k with
  | Ok cases => (take k cases, false)
  | Fail _ => ([], true)
  end.

Definition graph_stage (inp : PatientInput) : GraphExpansion :=
  match expand kg (complaints inp ++ symptoms inp) (max_depth cfg) with
  | Ok e => e
  | Fail _ => []
  end.

(** Generation and aggregation: when the selected provider fails, or its
    payload has no usable entry, the offline variant's payload is
    normalized instead and the result is marked degraded. *)
Definition generation_stage (ctx : PromptContext)
  : Result DiagnosisResult * bool :=
  let fallback := (normalize (synthesize ctx), true) in
  match attempt ctx 0 (retry_budget cfg) with
  | Ok raw =>
      match normalize raw with
      | Ok r => (Ok r, false)
      | Fail _ => fallback
      end
  | Fail _ => fallback
  end.

Definition context_of (inp : PatientInput) : PromptContext :=
  compose cfg inp (fst (retrieval_stage inp)) (graph_stage inp).

(** Modelled from the spec: one run of a job, from [processing] to the
    terminal state of its session. *)
Definition run_job (st : Store) (job : Job) : Store * JobState :=
  let id := job_session job in
  match transition st id processing Nothing with
  | (st1, Fail _) => (st1, job_failed)
  | (st1, Ok _) =>
      let inp := job_input job in
      let d1 := snd (retrieval_stage inp) in
      match generation_stage (context_of inp) with
      | (Ok r, d2) =>
          (fst (transition st1 id completed (WithResult r (d1 || d2))),
           success)
      | (Fail e, _) =>
          (fst (transition st1 id failed (WithError (describe e))),
           job_failed)
      end
  end.

End Executor.

End Backend.

(** ** Vocabulary of the statements below *)


(** The request a program opens with, if it opens with one. *)
Definition first_request {A : Type} (p : Prog A) : option Request :=
  match p with
  | Fetch rq _ => Some rq
  | _ => None
  end.

Definition with_credentials (c : option string) (rq : Request) : Request :=
  {| url := url rq;
     init := {| method := method (init rq); headers := headers (init rq);
                credentials := c; body := body (init rq) |} |}.

(** The design document's PatientInput as a JSON object: complaints and
    symptoms are arrays of strings, vitals an object, top_k a positive
    whole number. *)
Definition is_string_array (o : option JSON) : bool :=
  match o with
  | Some (JArr l) =>
      forallb (fun x => match x with JStr _ => true | _ => false end) l
  | _ => false
  end.

Definition is_object (o : option JSON) : bool :=
  match o with Some (JObj _) => true | _ => false end.

Definition is_positive_integer (o : option JSON) : bool :=
  match o with
  | Some (JNum q) =>
      (0 <? Qnum q)%Z && (Qnum q mod Zpos (Qden q) =? 0)%Z
  | _ => false
  end.

Definition PatientInput_shape (v : JSON) : bool :=
  is_string_array (prop "complaints" v) &&
  is_string_array (prop "symptoms" v) &&
  is_object (prop "vitals" v) &&
  is_positive_integer (prop "top_k" v).

(** *** Sample data *)

Definition localhost : string := "http://localhost:8000".

Definition fresh_world : World := {| localStorage := ∅; sent := [] |}.

Definition sample_request : DiagnosisRequest.t :=
  {| DiagnosisRequest.patient_name := "Ada";
     DiagnosisRequest.patient_email := "ada@example.org";
     DiagnosisRequest.age := 36;
     DiagnosisRequest.gender := "female";
     DiagnosisRequest.symptoms := "chest pain, shortness of breath";
     DiagnosisRequest.medical_history := None |}.

(** What a server answers when it refuses an export because the session is
    not ready: an error status with a JSON error body. *)
Definition not_ready_reply : Response :=
  {| status := 409; statusText := "Conflict";
     parsed := Some (JObj [("detail", JStr "SessionNotReady")]) |}.

Definition server_error_reply : Response :=
  {| status := 500; statusText := "Internal Server Error";
     parsed := Some JNull |}.



Module BackendSamples.
Import Backend.

(** The two full life cycles of a session. *)
Definition lifecycles : list (list State) :=
  [[pending; processing; completed]; [pending; processing; failed]].

(** What may still follow once a session stands in a given state. *)
Definition after (s : State) : list (list State) :=
  match s with
  | pending => [[processing; completed]; [processing; failed]]
  | processing => [[completed]; [failed]]
  | completed | failed => [[]]
  end.

Definition empty_store : Store := {| sessions := ∅; next_id := 0 |}.

Definition sample_input : PatientInput :=
  {| complaints := ["chest pain"; "shortness of breath"];
     symptoms := ["fatigue"; "dizziness"];
     vitals := {[ "hr" := JNum 95 ]};
     history := None;
     top_k := 5 |}.

(** The payload of the project's README, with one entry that lacks its
    confidence and an action that lacks its id. *)
Definition sample_payload : JSON :=
  JObj
    [("differentialDiagnosis",
      JArr [JObj [("condition", JStr "Costochondritis");
                  ("confidence", JNum (-4));
                  ("description", JStr "Chest wall inflammation");
                  ("icd10", JStr "M94.0")];
            JObj [("condition", JStr "No confidence given")];
            JObj [("condition", JStr "Gastroesophageal Reflux Disease (GERD)");
                  ("confidence", JNum (391 # 5));
                  ("description", JStr "Acid reflux causing chest discomfort");
                  ("icd10", JStr "K21.9")];
            JObj [("condition", JStr "Angina");
                  ("confidence", JNum 140);
                  ("description", JStr "Reduced blood flow to the heart");
                  ("icd10", JStr "I20.9")]]);
     ("recommendedActions",
      JArr [JObj [("text", JStr "Order ECG to rule out cardiac causes");
                  ("priority", JStr "high");
                  ("category", JStr "imaging")]]);
     ("followUpQuestions",
      JArr [JObj [("id", JStr "q1");
                  ("text", JStr "Does the pain worsen with deep breathing?")]]);
     ("similarCases",
      JArr [JObj [("caseId", JStr "A124");
                  ("similarity", JNum (941 # 10));
                  ("diagnosis", JStr "GERD");
                  ("outcome", JStr "Recovered")]])].

Definition sample_graph : Graph :=
  {| node_type :=
       {[ "chest pain" := symptom_node; "angina" := condition_node;
          "ecg" := action_node ]};
     triplets :=
       [{| source := "chest pain"; relation := "indicates";
           target := "angina" |};
        {| source := "angina"; relation := "investigated_by";
           target := "ecg" |}] |}.

Definition sample_config : Config :=
  {| max_depth := 2; retry_budget := 1; max_cases := 5; max_facts := 10 |}.

Definition no_index (_ : PatientInput) (_ : nat) : Result (list CaseRecord) :=
  Fail IndexUnavailable.

(** A networked provider whose every call times out. *)
Definition always_timing_out : Provider :=
  Networked (fun _ _ => Fail ProviderTimeout).

Definition offline_payload (_ : PromptContext) : JSON := sample_payload.

(** The scenario of section 8: both calls of the retry budget time out. *)
Definition timed_out_job : Job :=
  {| job_session := "s0"; job_input := sample_input; attempts := 0 |}.

Definition one_pending_session : Store :=
  (create empty_store "patient-1" sample_input).1.

End BackendSamples.

(** ** Reading back what the client writes

    The inverses below are what a server does with a URL segment and with a
    JSON string; they serve to show that the client's encodings lose
    nothing. *)

Fixpoint all_chars (P : ascii -> bool) (s : string) : bool :=
  match s with
  | EmptyString => true
  | String c rest => P c && all_chars P rest
  end.

(** A character that [encodeURIComponent] may put out. *)
Definition uri_output (c : ascii) : bool :=
  uri_unreserved c || (code c =? 37)%N.

(** The characters that end or split a path segment: [/], [?] and [#]. *)
Definition uri_delimiter (c : ascii) : bool :=
  let n := code c in (n =? 47)%N || (n =? 63)%N || (n =? 35)%N.

Definition unhex_digit (c : ascii) : option N :=
  let n := code c in
  if between 48 57 n then Some (n - 48)%N
  else if between 65 70 n then Some (n - 55)%N
  else if between 97 102 n then Some (n - 87)%N
  else None.

(** Percent-decoding, byte by byte; an escape that is not one is copied. *)
Fixpoint percent_decode (s : string) : string :=
  match s with
  | EmptyString => ""
  | String c rest =>
      if (code c =? 37)%N then
        match rest with
        | String h (String l rest') =>
            match unhex_digit h, unhex_digit l with
            | Some a, Some b =>
                String (ascii_of_N (16 * a + b)) (percent_decode rest')
            | _, _ => String c (percent_decode rest)
            end
        | _ => String c (percent_decode rest)
        end
      else String c (percent_decode rest)
  end.

Definition prepend (c : ascii) (r : option (string * string))
  : option (string * string) :=
  match r with
  | Some (s, rest) => Some (String c s, rest)
  | None => None
  end.

(** The character a one-letter JSON escape stands for. *)
Definition unescape_letter (e : ascii) : ascii :=
  let n := code e in
  if (n =? 98)%N then ascii_of_N 8
  else if (n =? 116)%N then ascii_of_N 9
  else if (n =? 110)%N then ascii_of_N 10
  else if (n =? 102)%N then ascii_of_N 12
  else if (n =? 114)%N then ascii_of_N 13
  else e.

(** Reading a JSON string after its opening quote: the string and the text
    that follows its closing quote. *)
Fixpoint read_quoted (s : string) : option (string * string) :=
  match s with
  | EmptyString => None
  | String c rest =>
      if (code c =? 34)%N then Some ("", rest)
      else if (code c =? 92)%N then
        match rest with
        | EmptyString => None
        | String e rest1 =>
            if (code e =? 117)%N then
              match rest1 with
              | String _ (String _ (String h (String l rest2))) =>
                  match unhex_digit h, unhex_digit l with
                  | Some a, Some b =>
                      prepend (ascii_of_N (16 * a + b)) (read_quoted rest2)
                  | _, _ => None
                  end
              | _ => None
              end
            else prepend (unescape_letter e) (read_quoted rest1)
        end
      else prepend c (read_quoted rest)
  end.

(** A program that is over: it returned or threw. *)
Definition settled {A : Type} (p : Prog A) : bool :=
  match p with
  | Ret _ | Throw _ => true
  | _ => false
  end.

Definition is_logout (c : Call) : bool :=
  match c with call_logout => true | _ => false end.

(** The calls whose request carries no credentials. *)
Definition anonymous (c : Call) : bool :=
  match c with
  | call_signup _ | call_healthCheck | call_exploreNode _ | call_findPath _ _
  | call_getDiseaseInfo _ | call_getSymptomRelations _ | call_getKGStats
  | call_analyzeSymptoms _ => true
  | _ => false
  end.

(** * Properties of the client *)

Section ClientFacts.
Variable API_URL : string.
Variable numberToString : Q -> string.

Local Abbreviation stringify := (stringify numberToString).


(** The toJSON image of a request never has the PatientInput fields. *)
Lemma toJSON_fields (d : DiagnosisRequest.t) :
  prop "complaints" (DiagnosisRequest.toJSON d) = None /\
  prop "vitals" (DiagnosisRequest.toJSON d) = None /\
  prop "top_k" (DiagnosisRequest.toJSON d) = None /\
  prop "symptoms" (DiagnosisRequest.toJSON d) =
    Some (JStr (DiagnosisRequest.symptoms d)).
Proof.
  unfold DiagnosisRequest.toJSON.
  destruct (DiagnosisRequest.medical_history d); repeat split; reflexivity.
Qed.

(** C2, as amended: createDiagnosis takes a DiagnosisRequest -- patient_name,
    patient_email, age, gender, symptoms as one string, and an optional
    medical_history -- and never a PatientInput; it POSTs that object as JSON
    to /api/v1/diagnosis/start with credentials included, throws
    [HTTP <status>: <statusText>] when the response is not ok and otherwise
    returns the parsed body, whatever the server put there. *)
Theorem createDiagnosis_takes_DiagnosisRequest (data : DiagnosisRequest.t) :
  createDiagnosis API_URL numberToString data =
    Fetch
      {| url := API_URL ++ "/api/v1/diagnosis/start";
         init := {| method := Some POST;
                    headers := Some [("Content-Type", "application/json")];
                    credentials := Some "include";
                    body := Some (TextBody
                      (stringify (DiagnosisRequest.toJSON data))) |} |}
      (fun res =>
         if negb (ok res)
         then Throw (Error ("HTTP " ++ decimal (status res) ++ ": " ++
                            statusText res))
         else json res) /\
  PatientInput_shape (DiagnosisRequest.toJSON data) = false /\
  prop "complaints" (DiagnosisRequest.toJSON data) = None /\
  prop "vitals" (DiagnosisRequest.toJSON data) = None /\
  prop "top_k" (DiagnosisRequest.toJSON data) = None /\
  prop "symptoms" (DiagnosisRequest.toJSON data) =
    Some (JStr (DiagnosisRequest.symptoms data)).
Proof.
  destruct (toJSON_fields data) as (Hc & Hv & Hk & Hs).
  split; [| split; [| auto]].
  - reflexivity.
  - unfold PatientInput_shape. rewrite Hc. reflexivity.
Qed.

(** C1, as amended: exportDiagnosis POSTs [{format}] (format defaulting to
    json) to /api/v1/diagnosis/<sessionId>/export with credentials included
    and hands back the parsed body of whatever response arrives, without
    looking at its status: a refusal by the server reaches the caller as a
    returned body, and the call fails only when the body is not JSON. *)
Theorem exportDiagnosis_returns_whatever_body (sessionId : string)
    (format : option string) :
  exportDiagnosis API_URL numberToString sessionId format =
    Fetch
      {| url := API_URL ++ "/api/v1/diagnosis/" ++ sessionId ++ "/export";
         init := {| method := Some POST;
                    headers := Some [("Content-Type", "application/json")];
                    credentials := Some "include";
                    body := Some (TextBody (stringify
                      (JObj [("format", JStr (default "json" format))]))) |} |}
      json /\
  forall (res : Response) (w : World),
    fst (run (fun _ => Some res)
           (exportDiagnosis API_URL numberToString sessionId format) w) =
    match parsed res with
    | Some v => Resolved v
    | None => Rejected (SyntaxError "Unexpected token")
    end.
Proof.
  split; [reflexivity |].
  intros res w. cbn. unfold json. destruct (parsed res); reflexivity.
Qed.




(** C8: the knowledge-graph queries take no session id, send no body, no
    headers and no credentials, and touch nothing on the client:
    getDiseaseInfo(d) is a GET of /api/v1/kg/disease/<encodeURIComponent(d)>,
    getSymptomRelations(t) of /api/v1/kg/symptoms/<encodeURIComponent(t)>,
    findPath(a,b) of
    /api/v1/kg/path/<encodeURIComponent(a)>/<encodeURIComponent(b)>, and
    getKGStats() of /api/v1/kg/stats. *)
Theorem knowledge_graph_reads (d t a b : string) :
  let disease :=
    {| url := API_URL ++ "/api/v1/kg/disease/" ++ encodeURIComponent d;
       init := no_init |} in
  let relations :=
    {| url := API_URL ++ "/api/v1/kg/symptoms/" ++ encodeURIComponent t;
       init := no_init |} in
  let path :=
    {| url := API_URL ++ "/api/v1/kg/path/" ++ encodeURIComponent a ++ "/" ++
              encodeURIComponent b;
       init := no_init |} in
  let stats := {| url := API_URL ++ "/api/v1/kg/stats"; init := no_init |} in
  getDiseaseInfo API_URL d = Fetch disease json /\
  getSymptomRelations API_URL t = Fetch relations json /\
  findPath API_URL a b = Fetch path json /\
  getKGStats API_URL = Fetch stats json /\
  Forall (fun rq => http_method rq = GET /\ body (init rq) = None)
    [disease; relations; path; stats] /\
  forall (net : Request -> option Response) (w : World),
    Forall (fun '(p, rq) =>
              localStorage (snd (run net p w)) = localStorage w /\
              sent (snd (run net p w)) = (sent w ++ [rq])%list)
      [(getDiseaseInfo API_URL d, disease);
       (getSymptomRelations API_URL t, relations);
       (findPath API_URL a b, path);
       (getKGStats API_URL, stats)].
Proof.
  intros disease relations path stats.
  repeat (split; [reflexivity |]).
  split; [repeat constructor |].
  intros net w.
  repeat constructor; cbn;
    match goal with |- context [net ?rq] => destruct (net rq) as [res |] end;
    cbn; try reflexivity; unfold json; destruct (parsed res); reflexivity.
Qed.

(** C9: signup and login send the same request -- POST <API_URL>/auth/login
    with the JSON body [{username: email, password: password}] -- and go on
    the same way; login's request carries credentials 'include', signup's
    carries none, and nothing else differs (full_name is never sent). *)
Theorem signup_is_login_without_credentials (email password : string)
    (full_name : option string) :
  let rq :=
    {| url := API_URL ++ "/auth/login";
       init := {| method := Some POST;
                  headers := Some [("Content-Type", "application/json")];
                  credentials := None;
                  body := Some (TextBody (stringify
                    (JObj [("username", JStr email);
                           ("password", JStr password)]))) |} |} in
  signup API_URL numberToString
    {| SignupData.email := email; SignupData.password := password;
       SignupData.full_name := full_name |} = Fetch rq json /\
  login API_URL numberToString
    {| LoginData.email := email; LoginData.password := password |} =
    Fetch (with_credentials (Some "include") rq) json.
Proof. split; reflexivity. Qed.

End ClientFacts.

Example encodeURIComponent_sample :
  encodeURIComponent "chest pain/a&b" = "chest%20pain%2Fa%26b" /\
  encodeURIComponent "GERD-1_(x).!~*'" = "GERD-1_(x).!~*'".
Proof. split; reflexivity. Qed.

Example createDiagnosis_on_server_error :
  fst (run (fun _ => Some server_error_reply)
         (createDiagnosis localhost integerToString sample_request)
         fresh_world) =
  Rejected (Error "HTTP 500: Internal Server Error").
Proof. reflexivity. Qed.

Example deleteDiagnosis_on_server_error :
  fst (run (fun _ => Some server_error_reply)
         (deleteDiagnosis localhost "s0") fresh_world) = Resolved JNull.
Proof. reflexivity. Qed.

(** C10: logout and verifyEmail send nothing and always succeed: logout
    removes the key [token] from localStorage and resolves to
    [{success: true}]; verifyEmail resolves to [{success: true}] for every
    token and leaves everything as it was. *)
Theorem logout_and_verifyEmail_are_local
    (net : Request -> option Response) (w : World) (token : string) :
  logout = RemoveItem "token" (Ret success) /\
  run net logout w =
    (Resolved success,
     {| localStorage := base.delete "token" (localStorage w);
        sent := sent w |}) /\
  verifyEmail token = Ret success /\
  run net (verifyEmail token) w = (Resolved success, w) /\
  success = JObj [("success", JBool true)].
Proof. repeat split. Qed.

(** C1, the claim fails: answered with an error status and a JSON error
    body, exportDiagnosis does not fail; it resolves with that body. *)
Lemma exportDiagnosis_refusal_is_returned :
  ok not_ready_reply = false /\
  fst (run (fun _ => Some not_ready_reply)
         (exportDiagnosis localhost integerToString "s0" (Some "json"))
         fresh_world) =
    Resolved (JObj [("detail", JStr "SessionNotReady")]) /\
  ~ exists e,
      fst (run (fun _ => Some not_ready_reply)
             (exportDiagnosis localhost integerToString "s0" (Some "json"))
             fresh_world) = Rejected e.
Proof.
  split; [reflexivity | split; [reflexivity |]].
  intros [e He]. discriminate He.
Qed.


(** C2, the claim fails: the object createDiagnosis sends is no
    PatientInput; it has no complaints, vitals or top_k, and its symptoms
    are one string. *)
Lemma createDiagnosis_sends_no_PatientInput :
  PatientInput_shape (DiagnosisRequest.toJSON sample_request) = false /\
  prop "complaints" (DiagnosisRequest.toJSON sample_request) = None /\
  prop "vitals" (DiagnosisRequest.toJSON sample_request) = None /\
  prop "top_k" (DiagnosisRequest.toJSON sample_request) = None /\
  prop "symptoms" (DiagnosisRequest.toJSON sample_request) =
    Some (JStr "chest pain, shortness of breath") /\
  first_request (createDiagnosis localhost integerToString sample_request) =
    Some {| url := "http://localhost:8000/api/v1/diagnosis/start";
            init := {| method := Some POST;
                       headers := Some [("Content-Type", "application/json")];
                       credentials := Some "include";
                       body := Some (TextBody
                         (stringify integerToString
                            (DiagnosisRequest.toJSON sample_request))) |} |}.
Proof. repeat split. Qed.

(** * Properties of the pipeline *)

Module BackendFacts.
Import Backend BackendSamples.

(** ** Session Manager *)

Lemma allowed_spec (a b : State) :
  allowed a b = true <->
  (a = pending /\ b = processing) \/
  (a = processing /\ (b = completed \/ b = failed)).
Proof. destruct a, b; cbn; intuition congruence. Qed.

Lemma transition_Some (st : Store) (id : string) (s : DiagnosisSession)
    (to : State) (c : Commit) :
  sessions st !! id = Some s ->
  transition st id to c =
    if allowed (state s) to
    then ({| sessions := <[id := commit s to c]> (sessions st);
             next_id := next_id st |}, Ok tt)
    else (st, Fail InvalidStateTransition).
Proof. intros H. unfold transition. rewrite H. reflexivity. Qed.

Lemma transition_rejected (st st' : Store) (id : string) (to : State)
    (c : Commit) (e : PipelineError) :
  transition st id to c = (st', Fail e) -> st' = st.
Proof.
  unfold transition. destruct (sessions st !! id) as [s |].
  - destruct (allowed (state s) to); congruence.
  - congruence.
Qed.

Lemma state_of_commit (st : Store) (i id : string) (s : DiagnosisSession)
    (to : State) (c : Commit) :
  state_of {| sessions := <[i := commit s to c]> (sessions st);
              next_id := next_id st |} id =
  if decide (i = id) then Some to else state_of st id.
Proof.
  unfold state_of. cbn. destruct (decide (i = id)) as [-> | Hne].
  - rewrite lookup_insert_eq. reflexivity.
  - rewrite lookup_insert_ne by exact Hne. reflexivity.
Qed.

Lemma after_step (s to : State) (l : list State) :
  allowed s to = true -> l ∈ after to -> to :: l ∈ after s.
Proof.
  destruct s, to; cbn; try discriminate; intros _;
    rewrite !elem_of_cons, !elem_of_nil; intuition (subst; auto).
Qed.

(** Whatever is requested, the states a session goes on to enter follow the
    state machine from where it stands. *)
Lemma entered_after (reqs : list (string * State * Commit)) :
  forall (st : Store) (id : string) (s : State),
    state_of st id = Some s ->
    exists l, l ∈ after s /\ entered st id reqs `prefix_of` l.
Proof.
  induction reqs as [| [[i to] c] rest IH]; intros st id s Hs.
  - cbn. destruct s; eexists;
      (split; [apply elem_of_cons; left; reflexivity | apply prefix_nil]).
  - cbn [entered]. unfold transition.
    destruct (sessions st !! i) as [si |] eqn:Hi; [| eauto].
    destruct (allowed (state si) to) eqn:Hal; [| eauto].
    pose proof (state_of_commit st i id si to c) as Hst.
    destruct (decide (i = id)) as [-> | Hne].
    + assert (state si = s) as <-.
      { unfold state_of in Hs. rewrite Hi in Hs. cbn in Hs. congruence. }
      destruct (IH _ id to Hst) as (l & Hl & Hpre).
      exists (to :: l). split; [apply after_step; assumption |].
      cbn. apply prefix_cons, Hpre.
    + rewrite Hs in Hst. cbn. eauto.
Qed.

Lemma lifecycles_NoDup (l : list State) : l ∈ lifecycles -> NoDup l.
Proof.
  unfold lifecycles. rewrite !elem_of_cons, elem_of_nil.
  intros [-> | [-> | []]]; compute_done.
Qed.

(** C3: from its creation on, and whatever transitions are requested of it
    or of other sessions, the state sequence observed of a session is a
    prefix of pending, processing, completed or of pending, processing,
    failed, and no state occurs twice; a transition succeeds exactly along
    pending -> processing -> {completed, failed}, and any other one fails
    with InvalidStateTransition and hands the store back unchanged. *)
Theorem session_lifecycle (st : Store) (who : string) (inp : PatientInput)
    (reqs : list (string * State * Commit)) :
  (exists l, l ∈ lifecycles /\
     observed (create st who inp).1 (create st who inp).2 reqs `prefix_of` l) /\
  NoDup (observed (create st who inp).1 (create st who inp).2 reqs) /\
  (forall (st1 : Store) (id : string) (s : DiagnosisSession) (to : State)
          (c : Commit),
     sessions st1 !! id = Some s ->
     if allowed (state s) to
     then (transition st1 id to c).2 = Ok tt /\
          state_of (transition st1 id to c).1 id = Some to
     else transition st1 id to c = (st1, Fail InvalidStateTransition)) /\
  (forall a b : State,
     allowed a b = true <->
     (a = pending /\ b = processing) \/
     (a = processing /\ (b = completed \/ b = failed))).
Proof.
  assert (Hobs : exists l, l ∈ lifecycles /\
            observed (create st who inp).1 (create st who inp).2 reqs
              `prefix_of` l).
  { unfold observed.
    assert (Hs : state_of (create st who inp).1 (create st who inp).2 =
                 Some pending).
    { unfold state_of, create. cbn. rewrite lookup_insert_eq. reflexivity. }
    rewrite Hs.
    destruct (entered_after reqs _ _ _ Hs) as (l & Hl & Hpre).
    exists (pending :: l). split; [| apply prefix_cons, Hpre].
    cbn in Hl. unfold lifecycles.
    rewrite !elem_of_cons, elem_of_nil in Hl.
    rewrite !elem_of_cons. destruct Hl as [-> | [-> | []]]; auto. }
  split; [exact Hobs |]. split; [| split].
  - destruct Hobs as (l & Hl & [k Hk]).
    apply lifecycles_NoDup in Hl. rewrite Hk in Hl.
    apply NoDup_app in Hl. tauto.
  - intros st1 id s to c Hs. rewrite (transition_Some _ _ _ _ _ Hs).
    destruct (allowed (state s) to); [| reflexivity].
    split; [reflexivity |]. cbn. rewrite state_of_commit.
    destruct (decide (id = id)); congruence.
  - apply allowed_spec.
Qed.

(** ** Knowledge Graph Engine *)

Lemma no_edge_leaves_nowhere (l : list Triplet) :
  filter (fun t => source t ∈ @nil string) l = [].
Proof.
  induction l as [| t l IH]; [reflexivity |].
  rewrite filter_cons. destruct (decide (source t ∈ [])) as [Hin | _].
  - apply elem_of_nil in Hin. destruct Hin.
  - exact IH.
Qed.

(** With nothing on the frontier the traversal adds nothing. *)
Lemma traverse_empty_frontier (g : Graph) (depth : nat) :
  forall (visited : list string) (acc : list Triplet),
    traverse g depth [] visited acc = acc.
Proof.
  induction depth as [| d IH]; intros visited acc; [reflexivity |].
  cbn [traverse]. rewrite no_edge_leaves_nowhere. cbn.
  rewrite IH. apply app_nil_r.
Qed.

Lemma omap_resolve_unknown (g : Graph) (terms : list string) :
  (forall t, t ∈ terms -> resolve g t = None) ->
  omap (resolve g) terms = [].
Proof.
  induction terms as [| t terms IH]; intros H; [reflexivity |].
  cbn. rewrite (H t) by (apply elem_of_cons; auto).
  apply IH. intros t' Ht'. apply H, elem_of_cons. auto.
Qed.

(** C7: expand never fails, whatever the terms and the depth: it always
    returns an expansion; an unknown term is skipped, the expansion being
    the one of the remaining terms; and for an empty term set, or one in
    which no term resolves, the expansion is empty. *)
Theorem expand_never_fails (kg : option Graph) (terms : list string)
    (maxDepth : nat) :
  (exists e, expand kg terms maxDepth = Ok e) /\
  (forall (before later : list string) (unknown : string),
     (forall g, kg = Some g -> resolve g unknown = None) ->
     expand kg (before ++ unknown :: later) maxDepth =
     expand kg (before ++ later) maxDepth) /\
  expand kg [] maxDepth = Ok [] /\
  ((forall g t, kg = Some g -> t ∈ terms -> resolve g t = None) ->
   expand kg terms maxDepth = Ok []).
Proof.
  split; [| split; [| split]].
  - destruct kg; cbn; eauto.
  - intros before later unknown Hun. destruct kg as [g |]; [| reflexivity].
    cbn. rewrite !omap_app. cbn. rewrite (Hun g eq_refl). reflexivity.
  - destruct kg as [g |]; [| reflexivity].
    cbn. rewrite traverse_empty_frontier. reflexivity.
  - intros Hun. destruct kg as [g |]; [| reflexivity].
    cbn. rewrite omap_resolve_unknown by eauto.
    cbn. rewrite traverse_empty_frontier. reflexivity.
Qed.

(** ** Result Aggregator *)

Lemma clamp_in_range (q : Q) : in_range (clamp q).
Proof.
  unfold clamp, in_range.
  destruct (Qle_bool q 0) eqn:Hlo; [split; discriminate |].
  assert (0 <= q)%Q as Hpos.
  { apply Qlt_le_weak, Qnot_le_lt. intros H.
    apply Qle_bool_iff in H. congruence. }
  destruct (Qle_bool 100 q) eqn:Hhi.
  - split; [discriminate | apply Qle_refl].
  - split; [exact Hpos |].
    apply Qlt_le_weak, Qnot_le_lt. intros H.
    apply Qle_bool_iff in H. congruence.
Qed.

Lemma parse_diagnosis_in_range (v : JSON) (d : Diagnosis) :
  parse_diagnosis v = Some d -> in_range (confidence d).
Proof.
  unfold parse_diagnosis. intros H.
  destruct (as_string (prop "condition" v)); [| discriminate].
  destruct (as_number (prop "confidence" v)); [| discriminate].
  destruct (as_string (prop "description" v)); [| discriminate].
  destruct (as_string (prop "icd10" v)); [| discriminate].
  cbn in H. injection H as <-. apply clamp_in_range.
Qed.

Lemma parse_case_in_range (v : JSON) (c : SimilarCase) :
  parse_case v = Some c -> in_range (similarity c).
Proof.
  unfold parse_case. intros H.
  destruct (as_string (prop "caseId" v)); [| discriminate].
  destruct (as_number (prop "similarity" v)); [| discriminate].
  destruct (as_string (prop "diagnosis" v)); [| discriminate].
  destruct (as_string (prop "outcome" v)); [| discriminate].
  cbn in H. injection H as <-. apply clamp_in_range.
Qed.

Lemma omap_Forall {A B : Type} (f : A -> option B) (P : B -> Prop)
    (l : list A) :
  (forall a b, f a = Some b -> P b) -> Forall P (omap f l).
Proof.
  intros H. induction l as [| a l IH]; cbn; [constructor |].
  destruct (f a) as [b |] eqn:Hfa; [constructor; eauto | exact IH].
Qed.

Lemma insert_desc_perm (d : Diagnosis) (l : list Diagnosis) :
  Permutation (insert_desc d l) (d :: l).
Proof.
  induction l as [| x l IH]; cbn; [reflexivity |].
  destruct (Qle_bool (confidence x) (confidence d)); [reflexivity |].
  rewrite IH. apply perm_swap.
Qed.

Lemma sort_desc_perm (l : list Diagnosis) : Permutation (sort_desc l) l.
Proof.
  induction l as [| d l IH]; cbn; [reflexivity |].
  rewrite insert_desc_perm, IH. reflexivity.
Qed.

Lemma above_trans (a b c : Diagnosis) : above a b -> above b c -> above a c.
Proof. unfold above. intros Hab Hbc. eapply Qle_trans; eassumption. Qed.

Lemma insert_desc_sorted (d : Diagnosis) (l : list Diagnosis) :
  StronglySorted above l -> StronglySorted above (insert_desc d l).
Proof.
  induction l as [| x l IH]; intros Hs; cbn.
  - constructor; constructor.
  - inversion Hs as [| ? ? Hrest Hx]; subst.
    destruct (Qle_bool (confidence x) (confidence d)) eqn:Hle.
    + apply Qle_bool_iff in Hle. constructor; [exact Hs |].
      constructor; [exact Hle |].
      eapply Forall_impl; [exact Hx |].
      intros y Hy. eapply above_trans; [exact Hle | exact Hy].
    + constructor; [apply IH, Hrest |].
      rewrite insert_desc_perm. constructor; [| exact Hx].
      unfold above. apply Qlt_le_weak, Qnot_le_lt. intros H.
      apply Qle_bool_iff in H. congruence.
Qed.

Lemma sort_desc_sorted (l : list Diagnosis) :
  StronglySorted above (sort_desc l).
Proof.
  induction l as [| d l IH]; cbn; [constructor |].
  apply insert_desc_sorted, IH.
Qed.

Lemma normalize_usable (raw : JSON) :
  usable_diagnoses raw <> [] -> exists r, normalize raw = Ok r.
Proof.
  unfold normalize. destruct (usable_diagnoses raw); [congruence | eauto].
Qed.

(** C6: on a payload with at least one usable diagnosis entry normalize
    returns a result whose confidences and similarities lie in [0,100] and
    whose differentialDiagnosis is in descending order of confidence and
    holds exactly the entries that validate, the malformed ones dropped; an
    action or question without an id gets a synthetic one, one with an id
    keeps it.  normalize fails only with MalformedPayload and only when no
    diagnosis entry is usable. *)
Theorem normalize_contract (raw : JSON) :
  match normalize raw with
  | Ok r =>
      usable_diagnoses raw <> [] /\
      Forall (fun d => in_range (confidence d)) (differentialDiagnosis r) /\
      Forall (fun c => in_range (similarity c)) (similarCases r) /\
      StronglySorted above (differentialDiagnosis r) /\
      Permutation (differentialDiagnosis r)
        (omap parse_diagnosis (as_list (prop "differentialDiagnosis" raw))) /\
      (forall (i : nat) (a : RawAction),
         usable_actions raw !! i = Some a ->
         exists a', recommendedActions r !! i = Some a' /\
           action_text a' = raw_text a /\
           action_id a' =
             match given_action_id a with
             | Some id => id
             | None => "a" ++ decimal (N.of_nat (S i))
             end) /\
      (forall (i : nat) (q : RawQuestion),
         usable_questions raw !! i = Some q ->
         exists q', followUpQuestions r !! i = Some q' /\
           question_text q' = raw_question q /\
           question_id q' =
             match given_question_id q with
             | Some id => id
             | None => "q" ++ decimal (N.of_nat (S i))
             end)
  | Fail e => e = MalformedPayload /\ usable_diagnoses raw = []
  end /\
  (usable_diagnoses raw <> [] -> exists r, normalize raw = Ok r).
Proof.
  split; [| apply normalize_usable].
  unfold normalize.
  destruct (usable_diagnoses raw) as [| d ds] eqn:Hu.
  - split; reflexivity.
  - cbn [differentialDiagnosis similarCases
      recommendedActions followUpQuestions].
    split; [discriminate |].
    split.
    { rewrite sort_desc_perm, <- Hu.
      apply omap_Forall, parse_diagnosis_in_range. }
    split; [apply omap_Forall, parse_case_in_range |].
    split; [apply sort_desc_sorted |].
    split; [rewrite sort_desc_perm, <- Hu; reflexivity |].
    split.
    + intros i a Ha. exists (settle_action i a).
      rewrite list_lookup_imap, Ha. repeat split.
    + intros i q Hq. exists (settle_question i q).
      rewrite list_lookup_imap, Hq. repeat split.
Qed.

(** ** Task Executor *)

(** A failure that is not transient ends the attempts at once. *)
Lemma attempt_not_retryable (primary : Provider) (ctx : PromptContext)
    (call budget : nat) (e : PipelineError) :
  generate primary call ctx = Fail e -> retryable e = false ->
  attempt primary ctx call budget = Fail e.
Proof. intros Hg Hr. destruct budget; cbn; rewrite Hg, Hr; reflexivity. Qed.

(** A transient failure on every call of the budget leaves the attempts
    failed with it. *)
Lemma attempt_transient (primary : Provider) (ctx : PromptContext)
    (e : PipelineError) (budget : nat) :
  retryable e = true ->
  forall call : nat,
    (forall n, call <= n <= call + budget ->
               generate primary n ctx = Fail e) ->
    attempt primary ctx call budget = Fail e.
Proof.
  intros Hr. induction budget as [| b IH]; intros call H; cbn.
  - rewrite H by lia. rewrite Hr. reflexivity.
  - rewrite H by lia. rewrite Hr. apply IH. intros n Hn. apply H. lia.
Qed.

(** C5: when the networked provider's generation fails for a job -- with
    ProviderTimeout or ProviderRateLimited once the retries are spent, or
    with ProviderError -- the executor normalizes the offline variant's
    payload instead: the job ends in success and its session is completed,
    never failed, holding that result with the degraded flag set. *)
Theorem provider_failure_falls_back (cfg : Config)
    (search : PatientInput -> nat -> Result (list CaseRecord))
    (kg : option Graph) (answer : nat -> PromptContext -> Result JSON)
    (synthesize : PromptContext -> JSON) (st : Store) (job : Job)
    (s : DiagnosisSession) (e : PipelineError) :
  sessions st !! job_session job = Some s ->
  state s = pending ->
  attempt (Networked answer)
    (context_of cfg search kg (job_input job)) 0 (retry_budget cfg) = Fail e ->
  usable_diagnoses
    (synthesize (context_of cfg search kg (job_input job))) <> [] ->
  exists (r : DiagnosisResult) (s' : DiagnosisSession),
    normalize (synthesize (context_of cfg search kg (job_input job))) = Ok r /\
    (run_job cfg search kg (Networked answer) synthesize st job).2 = success /\
    sessions (run_job cfg search kg (Networked answer) synthesize st job).1
      !! job_session job = Some s' /\
    state s' = completed /\
    result s' = Some r /\
    degraded s' = true /\
    error_detail s' = error_detail s.
Proof.
  intros Hs Hpending Hfail Husable.
  destruct (normalize_usable _ Husable) as [r Hr].
  unfold run_job.
  rewrite (transition_Some _ _ _ _ _ Hs), Hpending. cbn [allowed].
  unfold generation_stage. rewrite Hfail, Hr.
  erewrite transition_Some by (cbn; apply lookup_insert_eq).
  cbn [commit state allowed fst snd sessions].
  eexists r, _. split; [reflexivity |]. split; [reflexivity |].
  split; [apply lookup_insert_eq |].
  cbn. rewrite orb_true_r. repeat split.
Qed.

(** The scenario of section 8, run through the theorem above. *)
Lemma provider_failure_falls_back_scenario :
  exists (r : DiagnosisResult) (s' : DiagnosisSession),
    normalize
      (offline_payload
         (context_of sample_config no_index (Some sample_graph)
            (job_input timed_out_job))) = Ok r /\
    (run_job sample_config no_index (Some sample_graph)
       (Networked (fun _ _ => Fail ProviderTimeout)) offline_payload
       one_pending_session timed_out_job).2 = success /\
    sessions
      (run_job sample_config no_index (Some sample_graph)
         (Networked (fun _ _ => Fail ProviderTimeout)) offline_payload
         one_pending_session timed_out_job).1
      !! job_session timed_out_job = Some s' /\
    state s' = completed /\
    result s' = Some r /\
    degraded s' = true /\
    error_detail s' = None.
Proof.
  apply (provider_failure_falls_back sample_config no_index
           (Some sample_graph) (fun _ _ => Fail ProviderTimeout)
           offline_payload one_pending_session timed_out_job
           {| state := pending; owner := "patient-1"; input := sample_input;
              error_detail := None; result := None; degraded := false |}
           ProviderTimeout).
  - vm_compute. reflexivity.
  - reflexivity.
  - reflexivity.
  - unfold offline_payload. vm_compute. discriminate.
Defined.

Example observed_sample :
  observed one_pending_session "s0"
    [("s0", completed, Nothing); ("s0", processing, Nothing);
     ("s0", pending, Nothing); ("s0", failed, WithError "index lost");
     ("s0", completed, Nothing)] = [pending; processing; failed].
Proof. vm_compute. reflexivity. Qed.

Example expand_sample :
  expand (Some sample_graph) ["chest pain"; "no such term"] 1 =
    Ok [{| source := "chest pain"; relation := "indicates";
           target := "angina" |}] /\
  expand (Some sample_graph) ["no such term"] 2 = Ok [].
Proof. split; vm_compute; reflexivity. Qed.

Example normalize_sample :
  match normalize sample_payload with
  | Ok r =>
      map confidence (differentialDiagnosis r) = [100%Q; (391 # 5)%Q; 0%Q] /\
      map action_id (recommendedActions r) = ["a1"] /\
      map question_id (followUpQuestions r) = ["q1"]
  | Fail _ => False
  end.
Proof. vm_compute. repeat split. Qed.

End BackendFacts.

(** * Further properties of the client *)

Section ClientRequests.
Variable API_URL : string.
Variable numberToString : Q -> string.

Local Abbreviation api := (api API_URL numberToString).

Lemma json_settled (res : Response) : settled (json res) = true.
Proof. unfold json. destruct (parsed res); reflexivity. Qed.

Lemma run_settled {A : Type} (net : Request -> option Response) (p : Prog A)
    (w : World) :
  settled p = true -> snd (run net p w) = w.
Proof. destruct p; cbn; congruence. Qed.

(** After its request, if it sends one, a method only returns or throws. *)
Lemma api_continuation_settled (c : Call) (rq : Request)
    (k : Response -> Prog JSON) (res : Response) :
  api c = Fetch rq k -> settled (k res) = true.
Proof.
  intros H.
  destruct c; try discriminate H;
    try (cbn in H; injection H as _ <-; cbn;
         repeat match goal with
                | |- context [if ?b then _ else _] => destruct b
                end;
         first [reflexivity | apply json_settled]).
  destruct data as [| []]; try discriminate H;
    cbn in H; injection H as _ <-; apply json_settled.
Qed.

(** A call talks to the network at most once, with the request its program
    opens with, and only logout changes localStorage: no other method --
    login and signup included -- ever writes or removes a key. *)
Theorem one_request_and_no_local_state (c : Call)
    (net : Request -> option Response) (w : World) :
  sent (snd (run net (api c) w)) =
    (sent w ++ match first_request (api c) with
               | Some rq => [rq]
               | None => []
               end)%list /\
  localStorage (snd (run net (api c) w)) =
    if is_logout c then base.delete "token" (localStorage w)
    else localStorage w.
Proof.
  destruct (api c) as [v | e | rq k |] eqn:Hc.
  - destruct c; try discriminate Hc; cbn; rewrite ?app_nil_r; auto.
  - destruct c; try discriminate Hc; cbn; rewrite ?app_nil_r; auto.
  - assert (Hl : is_logout c = false)
      by (destruct c; try discriminate Hc; reflexivity).
    rewrite Hl. cbn. destruct (net rq) as [res |]; [| split; reflexivity].
    rewrite run_settled by (eapply api_continuation_settled; exact Hc).
    split; reflexivity.
  - destruct c; try discriminate Hc.
    + cbn in Hc. injection Hc as <- <-. cbn. rewrite app_nil_r. auto.
    + destruct data as [| []]; discriminate Hc.
Qed.

Ltac opening_request H :=
  match type of H with
  | first_request (api ?c) = Some _ =>
      destruct c; try discriminate H;
      repeat match goal with
             | a : Any |- _ => destruct a as [| []]; try discriminate H
             end;
      cbn in H; injection H as <-
  end.

(** No method takes a whole URL from its caller: the string each one hands
    to fetch is API_URL followed by a path that starts with /auth/ or with
    /api/v1/.  This is said of the string as the method writes it; ids are
    put in unencoded, so what fetch resolves the string to may leave that
    prefix when an id holds dot segments. *)
Theorem fetch_urls_start_with_API_URL (c : Call) (rq : Request) :
  first_request (api c) = Some rq ->
  exists path,
    url rq = API_URL ++ "/auth/" ++ path \/
    url rq = API_URL ++ "/api/v1/" ++ path.
Proof.
  intros H. opening_request H; cbn; eexists;
    first [left; reflexivity | right; reflexivity].
Qed.


(** The credentials option is either left out or 'include', and it is left
    out exactly by signup, healthCheck, analyzeSymptoms and the five
    knowledge-graph reads that take no session id; every call on a
    diagnosis, patient, upload or user resource sends the cookies. *)
Theorem which_calls_send_credentials (c : Call) (rq : Request) :
  first_request (api c) = Some rq ->
  credentials (init rq) = (if anonymous c then None else Some "include").
Proof.
  intros H. opening_request H; reflexivity.
Qed.

End ClientRequests.

Section ClientEdges.
Variable API_URL : string.
Variable numberToString : Q -> string.

Lemma ok_range (res : Response) :
  ok res = true <-> (200 <= status res <= 299)%N.
Proof.
  unfold ok, between. rewrite andb_true_iff, !N.leb_le. reflexivity.
Qed.

Lemma checked_outcome (net : Request -> option Response) (res : Response)
    (e : Exn) (w : World) (v : JSON) :
  fst (run net (if negb (ok res) then Throw e else json res) w) = Resolved v
  <-> ok res = true /\ parsed res = Some v.
Proof.
  unfold json. destruct (ok res), (parsed res); cbn;
    intuition congruence.
Qed.

(** createDiagnosis, getDiagnosis and getUserDiagnoses resolve with a value
    exactly when the status lies in 200..299 and the body parses to that
    value: 199 and 300 are refused like any error status, and a 2xx answer
    whose body is not JSON is a failure too. *)
Theorem checked_calls_resolve_on_2xx_json (data : DiagnosisRequest.t)
    (id : string) (res : Response) (w : World) (v : JSON) :
  let resolves p := fst (run (fun _ => Some res) p w) = Resolved v in
  let fine := (200 <= status res <= 299)%N /\ parsed res = Some v in
  (resolves (createDiagnosis API_URL numberToString data) <-> fine) /\
  (resolves (getDiagnosis API_URL id) <-> fine) /\
  (resolves (getUserDiagnoses API_URL) <-> fine).
Proof.
  intros resolves fine. subst resolves fine. rewrite <- ok_range.
  split; [apply checked_outcome | split; [apply checked_outcome |]].
  cbn [getUserDiagnoses fetch bind run].
  destruct (status res =? 403)%N eqn:H403; [| apply checked_outcome].
  apply N.eqb_eq in H403. unfold ok. rewrite H403. cbn.
  intuition congruence.
Qed.

(** Session ids go into the path as they are: asking getDiagnosis for
    <id>/summary sends the very request getDiagnosisSummary sends for <id>,
    and for <id>/export it asks the URL exportDiagnosis posts to. *)
Theorem session_ids_are_not_encoded (id : string) (format : option string) :
  first_request (getDiagnosis API_URL (id ++ "/summary")) =
    first_request (getDiagnosisSummary API_URL id) /\
  url <$> first_request (getDiagnosis API_URL (id ++ "/export")) =
    url <$> first_request (exportDiagnosis API_URL numberToString id format).
Proof. split; reflexivity. Qed.


End ClientEdges.

Section ClientEncodings.
Variable API_URL : string.
Variable numberToString : Q -> string.

Lemma str_app_assoc (a b c : string) : (a ++ b) ++ c = a ++ (b ++ c).
Proof.
  induction a as [| x a IH]; [reflexivity |].
  change (String x ((a ++ b) ++ c) = String x (a ++ (b ++ c))).
  f_equal. exact IH.
Qed.

Lemma str_app_cancel (p a b : string) : p ++ a = p ++ b -> a = b.
Proof.
  induction p as [| x p IH]; intros H; [exact H |].
  change (String x (p ++ a) = String x (p ++ b)) in H.
  injection H as H. apply IH, H.
Qed.

Lemma all_chars_app (P : ascii -> bool) (a b : string) :
  all_chars P (a ++ b) = all_chars P a && all_chars P b.
Proof.
  induction a as [| x a IH]; [reflexivity |].
  change (P x && all_chars P (a ++ b) =
          P x && all_chars P a && all_chars P b).
  rewrite IH. apply andb_assoc.
Qed.

Ltac every_byte c := destruct c as [[] [] [] [] [] [] [] []].

Lemma encode_char_output (c : ascii) :
  all_chars (fun x => uri_output x && negb (uri_delimiter x))
    (encode_char c) = true.
Proof. every_byte c; reflexivity. Qed.

Lemma encodeURIComponent_output (s : string) :
  all_chars (fun x => uri_output x && negb (uri_delimiter x))
    (encodeURIComponent s) = true.
Proof.
  induction s as [| c s IH]; [reflexivity |].
  change (encodeURIComponent (String c s))
    with (encode_char c ++ encodeURIComponent s).
  rewrite all_chars_app, encode_char_output, IH. reflexivity.
Qed.

Lemma percent_decode_char (c : ascii) (rest : string) :
  percent_decode (encode_char c ++ rest) = String c (percent_decode rest).
Proof. every_byte c; reflexivity. Qed.

Lemma percent_decode_encode (s : string) :
  percent_decode (encodeURIComponent s) = s.
Proof.
  induction s as [| c s IH]; [reflexivity |].
  change (encodeURIComponent (String c s))
    with (encode_char c ++ encodeURIComponent s).
  rewrite percent_decode_char, IH. reflexivity.
Qed.

Lemma encodeURIComponent_inj (a b : string) :
  encodeURIComponent a = encodeURIComponent b -> a = b.
Proof.
  intros H. apply (f_equal percent_decode) in H.
  rewrite !percent_decode_encode in H. exact H.
Qed.

(** Two texts without a slash that agree up to and after a slash. *)
Lemma split_at_slash (x x' y y' : string) :
  all_chars (fun c => uri_output c && negb (uri_delimiter c)) x = true ->
  all_chars (fun c => uri_output c && negb (uri_delimiter c)) x' = true ->
  x ++ "/" ++ y = x' ++ "/" ++ y' -> x = x' /\ y = y'.
Proof.
  revert x'. induction x as [| c x IH]; intros [| c' x'] Hx Hx' H.
  - change (String "/" y = String "/" y') in H.
    injection H as ->. auto.
  - change (String "/" y = String c' (x' ++ "/" ++ y')) in H.
    injection H as <- _. discriminate Hx'.
  - change (String c (x ++ "/" ++ y) = String "/" y') in H.
    injection H as -> _. discriminate Hx.
  - change (String c (x ++ "/" ++ y) = String c' (x' ++ "/" ++ y')) in H.
    injection H as -> H.
    change (all_chars ?P (String ?a ?r)) with (P a && all_chars P r) in Hx, Hx'.
    apply andb_true_iff in Hx as [_ Hx], Hx' as [_ Hx'].
    destruct (IH x' Hx Hx' H) as [-> ->]. auto.
Qed.

(** The knowledge-graph lookups cannot be steered to another path: what
    they append to the endpoint consists of unreserved characters and
    percent signs only, so it holds no [/], [?] or [#], whatever the node,
    disease or symptom name; findPath's two names are set apart by the one
    slash the method writes itself. *)
Theorem kg_names_stay_in_their_segment (name other : string) :
  let safe seg :=
    all_chars (fun c => uri_output c && negb (uri_delimiter c)) seg = true in
  exists seg seg',
    safe seg /\ safe seg' /\
    url <$> first_request (exploreNode API_URL name) =
      Some (API_URL ++ "/api/v1/kg/explore/" ++ seg) /\
    url <$> first_request (getDiseaseInfo API_URL name) =
      Some (API_URL ++ "/api/v1/kg/disease/" ++ seg) /\
    url <$> first_request (getSymptomRelations API_URL name) =
      Some (API_URL ++ "/api/v1/kg/symptoms/" ++ seg) /\
    url <$> first_request (findPath API_URL name other) =
      Some (API_URL ++ "/api/v1/kg/path/" ++ seg ++ "/" ++ seg').
Proof.
  intros safe. exists (encodeURIComponent name), (encodeURIComponent other).
  split; [apply encodeURIComponent_output |].
  split; [apply encodeURIComponent_output |].
  repeat split.
Qed.

(** Percent-encoding loses nothing: the URL string exploreNode,
    getDiseaseInfo or getSymptomRelations hands to fetch determines the name
    it was written for.  This is said of the string handed to fetch, not of
    the URL fetch resolves it to: the names [.] and [..] are left as they
    are by encodeURIComponent and are dot segments to fetch. *)
Theorem kg_lookup_url_determines_name (name name' : string) :
  first_request (exploreNode API_URL name) =
    first_request (exploreNode API_URL name') \/
  first_request (getDiseaseInfo API_URL name) =
    first_request (getDiseaseInfo API_URL name') \/
  first_request (getSymptomRelations API_URL name) =
    first_request (getSymptomRelations API_URL name') ->
  name = name'.
Proof.
  intros [H | [H | H]]; injection H as H;
    apply str_app_cancel, str_app_cancel in H;
    apply encodeURIComponent_inj, H.
Qed.

(** The URL string findPath hands to fetch determines the pair of nodes:
    each name is encoded before the slash between them is written, so no
    two pairs, however their names are cut, are written as the same string.
    This is said of the string handed to fetch, not of the URL fetch
    resolves it to, in which a name [.] or [..] is a dot segment. *)
Theorem findPath_url_determines_nodes (a b a' b' : string) :
  first_request (findPath API_URL a b) =
    first_request (findPath API_URL a' b') ->
  a = a' /\ b = b'.
Proof.
  intros H. injection H as H.
  apply str_app_cancel, str_app_cancel in H.
  apply split_at_slash in H; try apply encodeURIComponent_output.
  destruct H as [Ha Hb].
  split; apply encodeURIComponent_inj; assumption.
Qed.

Lemma read_quoted_char (c : ascii) (rest : string) :
  read_quoted (escape_char c ++ rest) = prepend c (read_quoted rest).
Proof. every_byte c; reflexivity. Qed.

(** What [JSON.stringify] writes for a string reads back as that string,
    up to the closing quote. *)
Lemma read_quoted_escape (s rest : string) :
  read_quoted (escape s ++ String dquote rest) = Some (s, rest).
Proof.
  induction s as [| c s IH]; [reflexivity |].
  change (escape (String c s)) with (escape_char c ++ escape s).
  rewrite str_app_assoc, read_quoted_char, IH. reflexivity.
Qed.

Lemma quote_app (s rest : string) :
  quote s ++ rest = String dquote (escape s ++ String dquote rest).
Proof.
  unfold quote.
  change (String dquote (escape s ++ String dquote "") ++ rest)
    with (String dquote ((escape s ++ String dquote "") ++ rest)).
  rewrite str_app_assoc. reflexivity.
Qed.

Lemma quote_app_inj (s s' rest rest' : string) :
  quote s ++ rest = quote s' ++ rest' -> s = s' /\ rest = rest'.
Proof.
  rewrite !quote_app. intros H. injection H as H.
  apply (f_equal read_quoted) in H. rewrite !read_quoted_escape in H.
  injection H as -> ->. auto.
Qed.

Lemma auth_body (email password : string) :
  stringify numberToString
    (JObj [("username", JStr email); ("password", JStr password)]) =
  "{" ++ quote "username" ++ ":" ++ quote email ++ "," ++
  quote "password" ++ ":" ++ quote password ++ "}".
Proof.
  cbn [stringify]. rewrite !str_app_assoc. reflexivity.
Qed.

(** The body login and signup send determines the credentials: quotes,
    backslashes and control characters in an email or password are escaped,
    so no two different pairs are written as the same JSON text and a
    password cannot pass for further fields. *)
Theorem auth_body_determines_credentials (email password : string)
    (email' password' : string) :
  first_request (login API_URL numberToString
    {| LoginData.email := email; LoginData.password := password |}) =
  first_request (login API_URL numberToString
    {| LoginData.email := email'; LoginData.password := password' |}) ->
  email = email' /\ password = password'.
Proof.
  intros H.
  assert (Hbody : stringify numberToString
            (JObj [("username", JStr email); ("password", JStr password)]) =
          stringify numberToString
            (JObj [("username", JStr email'); ("password", JStr password')]))
    by exact (f_equal
                (fun o => match body ∘ init <$> o with
                          | Some (Some (TextBody text)) => text
                          | _ => ""
                          end) H).
  clear H. rename Hbody into H. rewrite !auth_body in H.
  apply (str_app_cancel "{") in H.
  apply quote_app_inj in H as [_ H].
  apply (str_app_cancel ":") in H.
  apply quote_app_inj in H as [-> H].
  apply (str_app_cancel ",") in H.
  apply quote_app_inj in H as [_ H].
  apply (str_app_cancel ":") in H.
  apply quote_app_inj in H as [-> _].
  auto.
Qed.

End ClientEncodings.

(** ** The properties above on sample calls *)

Lemma fetch_urls_start_with_API_URL_upload :
  exists path,
    url {| url := localhost ++ "/api/v1/upload/f1/progress";
           init := {| method := None;
                      headers := Some [("Content-Type", "application/json")];
                      credentials := Some "include"; body := None |} |} =
      localhost ++ "/auth/" ++ path \/
    url {| url := localhost ++ "/api/v1/upload/f1/progress";
           init := {| method := None;
                      headers := Some [("Content-Type", "application/json")];
                      credentials := Some "include"; body := None |} |} =
      localhost ++ "/api/v1/" ++ path.
Proof.
  apply (fetch_urls_start_with_API_URL localhost integerToString
           (call_getUploadProgress "f1")).
  reflexivity.
Defined.


Lemma which_calls_send_credentials_signup :
  credentials
    (init {| url := localhost ++ "/auth/login";
             init := {| method := Some POST;
                        headers := Some [("Content-Type", "application/json")];
                        credentials := None;
                        body := Some (TextBody
                          (stringify integerToString
                             (JObj [("username", JStr "ada@example.org");
                                    ("password", JStr "pw")]))) |} |}) =
  None.
Proof.
  apply (which_calls_send_credentials localhost integerToString
           (call_signup {| SignupData.email := "ada@example.org";
                           SignupData.password := "pw";
                           SignupData.full_name := Some "Ada" |})).
  reflexivity.
Defined.


Lemma kg_lookup_url_determines_name_sample : "chest pain" = "chest pain".
Proof.
  apply (kg_lookup_url_determines_name localhost "chest pain" "chest pain").
  left. reflexivity.
Defined.

Lemma findPath_url_determines_nodes_sample :
  "chest pain/left" = "chest pain/left" /\ "angina" = "angina".
Proof.
  apply (findPath_url_determines_nodes localhost
           "chest pain/left" "angina" "chest pain/left" "angina").
  reflexivity.
Defined.

Lemma auth_body_determines_credentials_sample :
  "ada@example.org" = "ada@example.org" /\ "pw" = "pw".
Proof.
  apply (auth_body_determines_credentials localhost integerToString
           "ada@example.org" "pw" "ada@example.org" "pw").
  reflexivity.
Defined.

(** Without the encoding the two pairs below would be written alike. *)
Example findPath_keeps_pairs_apart :
  "a/b" ++ "/" ++ "c" = "a" ++ "/" ++ "b/c" /\
  url <$> first_request (findPath localhost "a/b" "c") =
    Some "http://localhost:8000/api/v1/kg/path/a%2Fb/c" /\
  url <$> first_request (findPath localhost "a" "b/c") =
    Some "http://localhost:8000/api/v1/kg/path/a/b%2Fc".
Proof. repeat split. Qed.
